(** * SOLARA provider adapter (apps/gateway/providers/solara.ts)

    A shallow embedding of [SolaraProvider.call] and [createSolaraProvider].

    The adapter talks to three things it does not own: the HTTP transport
    ([fetch]), the console and the timers.  They are modelled as an explicit
    environment plus a trace of the effects the call performs, in program
    order:

    - the k-th invocation of [fetch] is answered by [respond env k]; every
      awaited promise of the response ([fetch] itself, [response.text()],
      [response.json()]) resolves, rejects, or never settles;
    - [console.log] and [console.error] append a structured line to the trace;
    - the backoff wait of line 100 appends [Backoff delay] and then either
      settles or stays pending for ever, as the environment says
      ([wait_settles]).  Line 13 imports [setTimeout] from [timers/promises],
      whose signature is [(delay, value)]: on line 100 [resolve] is handed
      over as the delay and is never called, so on the runtime of the source
      no wait settles ([promise_timers]).  The environments in which waits
      settle describe the loop as it would run with the callback timers; a
      statement that needs one says so in its hypotheses.
    - on line 44 the same [setTimeout] takes the abort callback as its
      fulfilment value, so [controller.abort()] is never called and no clock
      is modelled: a transport that does not answer leaves [fetch] unsettled,
      and an [AbortError] is just one of the rejections the environment may
      give.

    JavaScript numbers are integers ([Z]) where the code only counts with
    them and rationals ([Q]) for the sampling temperature, which is only ever
    forwarded. *)

From Stdlib Require Import ZArith QArith List String Bool Lia.
Import ListNotations.
Open Scope string_scope.
Open Scope list_scope.
Open Scope Z_scope.

(** ** Data model *)

(** [interface SolaraConfig]; the optional fields are [None] when the caller
    leaves them out ([undefined]). *)
Record SolaraConfig := {
  prompt : string;
  model : string;
  apiKey : string;
  timeoutMs : option Z;
  temperature : option Q;
  maxTokens : option Z
}.

(** The private fields of [class SolaraProvider].  [this.apiKey] is [None]
    when the constructor was handed [undefined] (an unset environment
    variable behind the non-null assertion of line 112). *)
Record SolaraProvider := {
  this_apiKey : option string;
  this_model : string;
  this_timeoutMs : Z;
  this_maxRetries : Z
}.

(** Text of the [Error] objects in play.  The template strings of the source
    are kept as constructors carrying the interpolated values. *)
#[warnings="-register-all"] Inductive Message :=
| MsgApiError (status : Z) (errorText : string)
    (* `SOLARA API error (${response.status}): ${errorText}` *)
| MsgEmptyResponse
    (* 'SOLARA returned empty response' *)
| MsgTimeout (ms : Z)
    (* `SOLARA timeout after ${this.timeoutMs}ms` *)
| MsgFailedAfter (retries : Z) (last : option Message)
    (* `SOLARA failed after ${this.maxRetries} attempts: ${lastError?.message}` *)
| MsgForeign (text : string).
    (* message of an error raised by fetch, text() or json() *)

Record JsError := { name : string; message : Message }.

(** [new Error(msg)]: the name of a plain [Error] is "Error". *)
Definition new_Error (msg : Message) : JsError :=
  {| name := "Error"; message := msg |}.

(** The values [data.choices?.[0]?.message?.content] can evaluate to. *)
Inductive JsValue :=
| JsUndefined
| JsNull
| JsBool (b : bool)
| JsNumber (q : Q)
| JsString (s : string)
| JsObject.

(** JavaScript truthiness, as tested by [!content] on line 72. *)
Definition truthy (v : JsValue) : bool :=
  match v with
  | JsUndefined | JsNull => false
  | JsBool b => b
  | JsNumber q => negb (Qnum q =? 0)
  | JsString s => negb (String.eqb s "")
  | JsObject => true
  end.

(** What [call] reads off the parsed body: the content expression of line 70
    and the three optional usage counters of lines 79-81. *)
Record Data := {
  content : JsValue;
  prompt_tokens : option Z;
  completion_tokens : option Z;
  total_tokens : option Z
}.

(** The fate of an awaited promise: it resolves with a value, rejects with
    an error, or never settles. *)
Inductive Settled (A : Type) :=
| Resolves (a : A)
| Rejects (e : JsError)
| Unsettled.
Arguments Resolves {A} a.
Arguments Rejects {A} e.
Arguments Unsettled {A}.

(** A response as [call] observes it.  [json] also rejects when reading
    [data.choices] throws (a body that parses to [null]). *)
Record Response := {
  status : Z;
  text : Settled string;
  json : Settled Data
}.

(** [response.ok]: status in the range 200-299. *)
Definition ok (r : Response) : bool :=
  (200 <=? status r) && (status r <=? 299).

(** The JSON body of lines 52-58 and the outbound request of lines 46-60. *)
Record RequestBody := {
  body_model : string;
  body_user_content : string;
  body_temperature : Q;
  body_max_tokens : Z;
  body_stream : bool
}.

Record Request := {
  url : string;
  method : string;
  content_type : string;
  authorization : string;
  body : RequestBody
}.

(** Console lines. *)
Inductive LogLine :=
| LogAttempt (number : Z) (retries : Z)
    (* line 40 *)
| LogSucceeded (mdl : string) (promptTokens completionTokens totalTokens : option Z)
               (billedTokens : Z)
    (* lines 77-83; the cost string is [billedTokens * 0.00001] in double
       arithmetic, of which only the integer operand is kept *)
| LogFailed (number : Z) (msg : Message)
    (* line 89, console.error *)
| LogRetrying (delay : Z).
    (* line 99 *)

Inductive Event :=
| Console (l : LogLine)
| Fetch (r : Request)
| Backoff (delay : Z).

Record Env := {
  respond : nat -> Settled Response;
  wait_settles : Z -> bool
}.

(** The timers of the source (line 13): no backoff wait ever settles. *)
Definition promise_timers (env : Env) : Prop :=
  forall delay, wait_settles env delay = false.

(** ** Effects: a trace of events and a completion *)

Inductive Completion (A : Type) :=
| Normal (a : A)
| Throw (e : JsError)
| Pending.
Arguments Normal {A} a.
Arguments Throw {A} e.
Arguments Pending {A}.

Definition M (A : Type) : Type := list Event * Completion A.

Definition ret {A} (a : A) : M A := ([], Normal a).

Definition bind {A B} (m : M A) (f : A -> M B) : M B :=
  match m with
  | (t, Normal a) => let (t', c) := f a in (t ++ t', c)
  | (t, Throw e) => (t, Throw e)
  | (t, Pending) => (t, Pending)
  end.

Definition throw {A} (e : JsError) : M A := ([], Throw e).

Definition emit (ev : Event) : M unit := ([ev], Normal tt).

(** [await p] for a promise whose fate is known. *)
Definition await {A} (p : Settled A) : M A :=
  match p with
  | Resolves a => ret a
  | Rejects e => throw e
  | Unsettled => ([], Pending)
  end.

(** [try { m } catch (error) { h error }]. *)
Definition try_catch {A} (m : M A) (h : JsError -> M A) : M A :=
  match m with
  | (t, Throw e) => let (t', c) := h e in (t ++ t', c)
  | other => other
  end.

Declare Scope js_scope.
Delimit Scope js_scope with js.
Notation "x <- m ;; k" := (bind m (fun x => k))
  (at level 100, m at next level, right associativity) : js_scope.
Notation "m ;; k" := (bind m (fun _ => k))
  (at level 100, right associativity) : js_scope.
Open Scope js_scope.

Definition trace {A} (m : M A) : list Event := fst m.
Definition completion {A} (m : M A) : Completion A := snd m.

(** ** [SolaraProvider.call] *)

Section Call.

Variable env : Env.
Variable self : SolaraProvider.
Variable config : SolaraConfig.

(** Line 34: destructuring with defaults. *)
Definition temperature_or_default : Q :=
  match temperature config with Some t => t | None => 0.2%Q end.

Definition maxTokens_or_default : Z :=
  match maxTokens config with Some n => n | None => 1024 end.

(** `Bearer ${this.apiKey}` *)
Definition bearer : string :=
  String.append "Bearer "
    match this_apiKey self with Some k => k | None => "undefined" end.

(** Lines 46-60: the argument of [fetch]. *)
Definition request : Request :=
  {| url := "https://api.deepseek.com/v1/chat/completions";
     method := "POST";
     content_type := "application/json";
     authorization := bearer;
     body := {| body_model := this_model self;
                body_user_content := prompt config;
                body_temperature := temperature_or_default;
                body_max_tokens := maxTokens_or_default;
                body_stream := false |} |}.

(** [await fetch(...)] on the attempt numbered [attempt]. *)
Definition fetch (attempt : nat) : M Response :=
  emit (Fetch request) ;;
  await (respond env attempt).

(** `x || 0` on an optional counter. *)
Definition or_zero (x : option Z) : Z :=
  match x with Some n => n | None => 0 end.

(** Lines 40-85: the body of [try]; a normal completion is the [return
    content] of line 85. *)
Definition attempt_try (attempt : nat) : M JsValue :=
  emit (Console (LogAttempt (Z.of_nat attempt + 1) (this_maxRetries self))) ;;
  response <- fetch attempt ;;
  if negb (ok response) then
    errorText <- await (text response) ;;
    throw (new_Error (MsgApiError (status response) errorText))
  else
    data <- await (json response) ;;
    if negb (truthy (content data)) then
      throw (new_Error MsgEmptyResponse)
    else
      emit (Console (LogSucceeded (this_model self)
                       (prompt_tokens data) (completion_tokens data)
                       (total_tokens data) (or_zero (total_tokens data)))) ;;
      ret (content data).

(** Line 98: [Math.pow(2, attempt) * 1000], exact in doubles for every
    attempt below 1015; beyond that, where JavaScript gives [Infinity], the
    integer is not what the code computes. *)
Definition backoffDelay (attempt : nat) : Z := 2 ^ Z.of_nat attempt * 1000.

(** Line 100: the wait between two attempts. *)
Definition sleep (delay : Z) : M unit :=
  emit (Backoff delay) ;;
  if wait_settles env delay then ret tt else ([], Pending).

(** Lines 88-101: the body of [catch]; a normal completion falls through to
    the next iteration of the loop. *)
Definition attempt_catch (attempt : nat) (error : JsError) : M unit :=
  emit (Console (LogFailed (Z.of_nat attempt + 1) (message error))) ;;
  if String.eqb (name error) "AbortError" then
    throw (new_Error (MsgTimeout (this_timeoutMs self)))
  else if Z.of_nat attempt <? this_maxRetries self - 1 then
    let delay := backoffDelay attempt in
    emit (Console (LogRetrying delay)) ;;
    sleep delay
  else
    ret tt.

(** One iteration of the loop: [inl content] when line 85 returns, [inr error]
    when the handler completes and the loop goes on with [lastError = error]. *)
Definition iteration (attempt : nat) : M (JsValue + JsError) :=
  try_catch
    (c <- attempt_try attempt ;; ret (inl c))
    (fun error => attempt_catch attempt error ;; ret (inr error)).

(** Lines 38-105.  [left] counts the iterations the loop header still allows:
    [for (attempt = 0; attempt < maxRetries; attempt++)] runs its body
    [max(maxRetries - attempt, 0)] times unless the body leaves early. *)
Fixpoint attempts (left : nat) (attempt : nat) (lastError : option JsError)
  : M JsValue :=
  match left with
  | O =>
      throw (new_Error (MsgFailedAfter (this_maxRetries self)
                          (option_map message lastError)))
  | S left' =>
      r <- iteration attempt ;;
      match r with
      | inl c => ret c
      | inr error => attempts left' (S attempt) (Some error)
      end
  end.

Definition call : M JsValue :=
  attempts (Z.to_nat (this_maxRetries self)) 0 None.

End Call.

(** ** Observations on a trace *)

(** The requests handed to the transport, in order. *)
Definition requests (t : list Event) : list Request :=
  flat_map (fun ev => match ev with Fetch r => [r] | _ => [] end) t.

Definition transport_invocations (t : list Event) : nat :=
  List.length (requests t).

(** The delays of the backoff waits, in order. *)
Definition backoffs (t : list Event) : list Z :=
  flat_map (fun ev => match ev with Backoff d => [d] | _ => [] end) t.

(** Everything written to the console, in order. *)
Definition console (t : list Event) : list LogLine :=
  flat_map (fun ev => match ev with Console l => [l] | _ => [] end) t.

(** The per-attempt failure lines of line 89: attempt number and message. *)
Definition failure_records (t : list Event) : list (Z * Message) :=
  flat_map (fun ev => match ev with
                      | Console (LogFailed n m) => [(n, m)]
                      | _ => []
                      end) t.

(** The ways the [try] block of one attempt goes, read off lines 46-85:
    [Some (inl data)] when line 85 is reached, [Some (inr error)] with the
    error that reaches the [catch] of line 87, and [None] when one of the
    awaited promises never settles, so that the block never ends. *)
Definition attempt_outcome (o : Settled Response) : option (Data + JsError) :=
  match o with
  | Unsettled => None
  | Rejects e => Some (inr e)
  | Resolves response =>
      if negb (ok response) then
        match text response with
        | Resolves errorText =>
            Some (inr (new_Error (MsgApiError (status response) errorText)))
        | Rejects e => Some (inr e)
        | Unsettled => None
        end
      else
        match json response with
        | Resolves data =>
            if negb (truthy (content data))
            then Some (inr (new_Error MsgEmptyResponse))
            else Some (inl data)
        | Rejects e => Some (inr e)
        | Unsettled => None
        end
  end.

(** Line 92. *)
Definition is_abort (error : JsError) : bool :=
  String.eqb (name error) "AbortError".

(** ** The failure labels of the specification

    The labels are defined from the words of the specification (section 4.1),
    over the error an attempt ends with; the code itself has no such
    classification. *)
Inductive FailureLabel :=
| Timeout | RateLimited | ServerError | ClientError | Malformed.

Definition spec_classify (error : JsError) : option FailureLabel :=
  if is_abort error then Some Timeout
  else match message error with
       | MsgApiError s _ =>
           if s =? 429 then Some RateLimited
           else if (500 <=? s) && (s <=? 599) then Some ServerError
           else if (400 <=? s) && (s <=? 499) then Some ClientError
           else None
       | MsgEmptyResponse => Some Malformed
       | _ => None
       end.

(** The label of the failure an answer of the transport leads to, if any. *)
Definition failure_label (o : Settled Response) : option FailureLabel :=
  match attempt_outcome o with
  | Some (inr error) => spec_classify error
  | _ => None
  end.

(** The request checks of the specification (section 4.3, step 1), from its
    words: empty prompt, temperature outside 0.0-2.0, maxTokens not
    positive. *)
Definition spec_invalid_request (config : SolaraConfig) : bool :=
  String.eqb (prompt config) ""
  || match temperature config with
     | Some t => negb (Qle_bool 0 t && Qle_bool t 2)
     | None => false
     end
  || match maxTokens config with
     | Some n => n <=? 0
     | None => false
     end.

(** ** [createSolaraProvider]

    The process state the factory touches: the environment variables, the
    log of reads of [process.env], and the objects allocated by [new], whose
    identity is their position in the heap. *)
Record Process := {
  environ : string -> option string;
  env_reads : list string;
  heap : list SolaraProvider
}.

Definition Ref := nat.

(** [process.env.KEY] *)
Definition read_env (key : string) (p : Process) : option string * Process :=
  (environ p key,
   {| environ := environ p; env_reads := env_reads p ++ [key]; heap := heap p |}).

(** [new SolaraProvider(...)]: a fresh object. *)
Definition new_SolaraProvider (obj : SolaraProvider) (p : Process) : Ref * Process :=
  (List.length (heap p),
   {| environ := environ p; env_reads := env_reads p; heap := heap p ++ [obj] |}).

(** [value || fallback] on an optional string: [undefined] and the empty
    string are falsy. *)
Definition or_else (value : option string) (fallback : string) : string :=
  match value with
  | Some s => if String.eqb s "" then fallback else s
  | None => fallback
  end.

Section Factory.

(** The built-in [parseInt], restricted to the integers it returns. *)
Variable parseInt : string -> Z.

(** Lines 110-117. *)
Definition createSolaraProvider (p : Process) : Ref * Process :=
  let (key, p1) := read_env "SOLARA_API_KEY" p in
  let (mdl, p2) := read_env "SOLARA_MODEL" p1 in
  let (tmo, p3) := read_env "SOLARA_TIMEOUT_MS" p2 in
  let (rts, p4) := read_env "SOLARA_MAX_RETRIES" p3 in
  new_SolaraProvider
    {| this_apiKey := key;
       this_model := or_else mdl "deepseek-r1";
       this_timeoutMs := parseInt (or_else tmo "20000");
       this_maxRetries := parseInt (or_else rts "3") |}
    p4.

End Factory.

(** The number of times [process.env.KEY] was read. *)
Definition reads_of (key : string) (p : Process) : nat :=
  List.length (filter (String.eqb key) (env_reads p)).

(** ** Shapes of a run

    The events one iteration of the loop leaves in the trace, by the way it
    ends. *)

Definition prepend {A} (t : list Event) (m : M A) : M A :=
  (t ++ trace m, completion m).

Section Shapes.

Variable self : SolaraProvider.
Variable config : SolaraConfig.

(** Line 40 and the call of [fetch]. *)
Definition opening (attempt : nat) : list Event :=
  [Console (LogAttempt (Z.of_nat attempt + 1) (this_maxRetries self));
   Fetch (request self config)].

(** ... then line 89. *)
Definition failed (attempt : nat) (e : JsError) : list Event :=
  opening attempt ++ [Console (LogFailed (Z.of_nat attempt + 1) (message e))].

(** ... then lines 99-100. *)
Definition retrying (attempt : nat) (e : JsError) : list Event :=
  failed attempt e
  ++ [Console (LogRetrying (backoffDelay attempt)); Backoff (backoffDelay attempt)].

(** Line 40, the call of [fetch] and lines 77-83. *)
Definition succeeded (attempt : nat) (d : Data) : list Event :=
  opening attempt
  ++ [Console (LogSucceeded (this_model self) (prompt_tokens d)
                 (completion_tokens d) (total_tokens d)
                 (or_zero (total_tokens d)))].

End Shapes.

(** ** Sample inputs *)

Definition sample_config : SolaraConfig :=
  {| prompt := "hello"; model := "deepseek-r1"; apiKey := "sk-from-config";
     timeoutMs := None; temperature := None; maxTokens := None |}.

(** A request the specification calls invalid on all three counts. *)
Definition invalid_config : SolaraConfig :=
  {| prompt := ""; model := "deepseek-r1"; apiKey := "sk-from-config";
     timeoutMs := None; temperature := Some 5%Q; maxTokens := Some (-1) |}.

Definition sample_provider (maxRetries : Z) : SolaraProvider :=
  {| this_apiKey := Some "sk-secret"; this_model := "deepseek-r1";
     this_timeoutMs := 20000; this_maxRetries := maxRetries |}.

Definition http_error (s : Z) (errorText : string) : Settled Response :=
  Resolves {| status := s; text := Resolves errorText;
              json := Rejects {| name := "SyntaxError";
                                 message := MsgForeign "Unexpected token" |} |}.

Definition http_success (c : JsValue) : Settled Response :=
  Resolves {| status := 200; text := Resolves "";
              json := Resolves {| content := c; prompt_tokens := Some 3;
                                  completion_tokens := Some 4;
                                  total_tokens := Some 7 |} |}.

Definition aborted : Settled Response :=
  Rejects {| name := "AbortError"; message := MsgForeign "The user aborted a request." |}.

(** The transport gives the same answer on every attempt. *)
Definition env_always (o : Settled Response) (settles : bool) : Env :=
  {| respond := fun _ => o; wait_settles := fun _ => settles |}.

(** The transport answers the attempts before [k] with [o] and succeeds from
    attempt [k] on. *)
Definition env_success_at (k : nat) (o : Settled Response) (settles : bool) : Env :=
  {| respond := fun i => if (i <? k)%nat then o else http_success (JsString "pong");
     wait_settles := fun _ => settles |}.

(** ** The constructor

    Lines 26-31: a parameter left out ([None]) takes its default. *)
Definition SolaraProvider_constructor
    (key : option string) (mdl : option string)
    (tmo : option Z) (rts : option Z) : SolaraProvider :=
  {| this_apiKey := key;
     this_model := match mdl with Some m => m | None => "deepseek-r1" end;
     this_timeoutMs := match tmo with Some t => t | None => 20000 end;
     this_maxRetries := match rts with Some r => r | None => 3 end |}.

(** The object a reference points to. *)
Definition deref (p : Process) (r : Ref) : option SolaraProvider :=
  nth_error (heap p) r.

(** A stand-in for [parseInt] on strings of decimal digits, for examples. *)
Definition digit_value (c : Ascii.ascii) : option Z :=
  let n := Z.of_nat (Ascii.nat_of_ascii c) in
  if (48 <=? n) && (n <=? 57) then Some (n - 48) else None.

Fixpoint parse_digits (acc : Z) (s : string) : Z :=
  match s with
  | EmptyString => acc
  | String c rest =>
      match digit_value c with
      | Some d => parse_digits (10 * acc + d) rest
      | None => acc
      end
  end.

Definition sample_parseInt (s : string) : Z := parse_digits 0 s.

Definition sample_process : Process :=
  {| environ := fun key => if String.eqb key "SOLARA_API_KEY" then Some "sk-secret"
                           else None;
     env_reads := [];
     heap := [] |}.

(** A process without the credential, with one provider already built. *)
Definition keyless_process : Process :=
  {| environ := fun key => if String.eqb key "SOLARA_MAX_RETRIES" then Some "2"
                           else None;
     env_reads := [];
     heap := [sample_provider 3] |}.

(** ** The runs of [call]

    A run is a series of attempts that failed and were retried, followed by
    the attempt at which the call ends or stops for ever. *)
Inductive Ending :=
| Succeeded (d : Data)      (* line 85 returns *)
| TimedOut (e : JsError)    (* line 93 throws *)
| Exhausted (e : JsError)   (* the last allowed attempt failed: line 105 throws *)
| Stuck (e : JsError)       (* the wait of line 100 never settles *)
| Unanswered.               (* fetch, text() or json() never settles *)

Section Runs.

Variable env : Env.
Variable self : SolaraProvider.
Variable config : SolaraConfig.

(** The events of the attempts numbered [a], [a + 1], ... that ended in the
    errors [errs] and were retried. *)
Fixpoint retried (a : nat) (errs : list JsError) : list Event :=
  match errs with
  | [] => []
  | e :: rest => retrying self config a e ++ retried (S a) rest
  end.

(** ... and what makes them so: each ended in that error, which is not an
    [AbortError], was not the last allowed attempt, and its wait settled. *)
Fixpoint retried_ok (a : nat) (errs : list JsError) : Prop :=
  match errs with
  | [] => True
  | e :: rest =>
      attempt_outcome (respond env a) = Some (inr e)
      /\ is_abort e = false
      /\ Z.of_nat a < this_maxRetries self - 1
      /\ wait_settles env (backoffDelay a) = true
      /\ retried_ok (S a) rest
  end.

(** The events and the completion of the attempt numbered [k] that ends the
    call. *)
Definition ending_events (k : nat) (x : Ending) : list Event :=
  match x with
  | Succeeded d => succeeded self config k d
  | TimedOut e => failed self config k e
  | Exhausted e => failed self config k e
  | Stuck e => retrying self config k e
  | Unanswered => opening self config k
  end.

Definition ending_completion (x : Ending) : Completion JsValue :=
  match x with
  | Succeeded d => Normal (content d)
  | TimedOut _ => Throw (new_Error (MsgTimeout (this_timeoutMs self)))
  | Exhausted e =>
      Throw (new_Error (MsgFailedAfter (this_maxRetries self) (Some (message e))))
  | Stuck _ => Pending
  | Unanswered => Pending
  end.

(** ... and what makes attempt [k] end the call that way. *)
Definition ends (k : nat) (x : Ending) : Prop :=
  match x with
  | Succeeded d => attempt_outcome (respond env k) = Some (inl d)
  | TimedOut e =>
      attempt_outcome (respond env k) = Some (inr e) /\ is_abort e = true
  | Exhausted e =>
      attempt_outcome (respond env k) = Some (inr e) /\ is_abort e = false
      /\ Z.of_nat k = this_maxRetries self - 1
  | Stuck e =>
      attempt_outcome (respond env k) = Some (inr e) /\ is_abort e = false
      /\ Z.of_nat k < this_maxRetries self - 1
      /\ wait_settles env (backoffDelay k) = false
  | Unanswered => attempt_outcome (respond env k) = None
  end.

End Runs.

(** More observations on a trace: the attempt announcements of line 40, the
    success lines of lines 77-83, and a total of delays. *)
Definition attempt_lines (t : list Event) : list (Z * Z) :=
  flat_map (fun ev => match ev with
                      | Console (LogAttempt n m) => [(n, m)]
                      | _ => []
                      end) t.

Definition success_lines (t : list Event) : list string :=
  flat_map (fun ev => match ev with
                      | Console (LogSucceeded m _ _ _ _) => [m]
                      | _ => []
                      end) t.

Definition total (delays : list Z) : Z := fold_right Z.add 0 delays.

(** The delays announced on line 99. *)
Definition retry_lines (t : list Event) : list Z :=
  flat_map (fun ev => match ev with
                      | Console (LogRetrying d) => [d]
                      | _ => []
                      end) t.

(** A transport that fails with a 503 on attempts 0 and 1, is cut by the
    deadline on attempt 2 and answers afterwards. *)
Definition env_flaky (settles : bool) : Env :=
  {| respond := fun i => if (i <? 2)%nat then http_error 503 "busy"
                         else if (i =? 2)%nat then aborted
                         else http_success (JsString "pong");
     wait_settles := fun _ => settles |}.

(** * Properties *)

(** ** The effect monad *)

Lemma bind_prepend {A B} (t : list Event) (a : A) (f : A -> M B) :
  bind (t, Normal a) f = prepend t (f a).
Proof. unfold bind, prepend, trace, completion. destruct (f a); reflexivity. Qed.

Lemma trace_prepend {A} (t : list Event) (m : M A) :
  trace (prepend t m) = t ++ trace m.
Proof. reflexivity. Qed.

Lemma completion_prepend {A} (t : list Event) (m : M A) :
  completion (prepend t m) = completion m.
Proof. reflexivity. Qed.

Lemma requests_app t1 t2 : requests (t1 ++ t2) = requests t1 ++ requests t2.
Proof. apply flat_map_app. Qed.

Lemma transport_invocations_app t1 t2 :
  transport_invocations (t1 ++ t2)
  = (transport_invocations t1 + transport_invocations t2)%nat.
Proof. unfold transport_invocations. now rewrite requests_app, length_app. Qed.

Lemma backoffs_app t1 t2 : backoffs (t1 ++ t2) = backoffs t1 ++ backoffs t2.
Proof. apply flat_map_app. Qed.

Lemma console_app t1 t2 : console (t1 ++ t2) = console t1 ++ console t2.
Proof. apply flat_map_app. Qed.

Lemma failure_records_app t1 t2 :
  failure_records (t1 ++ t2) = failure_records t1 ++ failure_records t2.
Proof. apply flat_map_app. Qed.

(** ** One iteration, case by case *)

Section Iteration.

Variable env : Env.
Variable self : SolaraProvider.
Variable config : SolaraConfig.

Lemma attempts_O attempt last :
  attempts env self config 0 attempt last
  = ([], Throw (new_Error (MsgFailedAfter (this_maxRetries self)
                            (option_map message last)))).
Proof. reflexivity. Qed.

Lemma attempts_S left attempt last :
  attempts env self config (S left) attempt last =
  match attempt_outcome (respond env attempt) with
  | None => (opening self config attempt, Pending)
  | Some (inl d) => (succeeded self config attempt d, Normal (content d))
  | Some (inr e) =>
      if is_abort e then
        (failed self config attempt e,
         Throw (new_Error (MsgTimeout (this_timeoutMs self))))
      else if Z.of_nat attempt <? this_maxRetries self - 1 then
        if wait_settles env (backoffDelay attempt) then
          prepend (retrying self config attempt e)
            (attempts env self config left (S attempt) (Some e))
        else (retrying self config attempt e, Pending)
      else
        prepend (failed self config attempt e)
          (attempts env self config left (S attempt) (Some e))
  end.
Proof.
  cbn [attempts]. unfold iteration, attempt_try, attempt_catch, fetch, sleep,
    attempt_outcome, is_abort, retrying, failed, succeeded, opening.
  destruct (respond env attempt) as [r | e |]; cbn; [| | reflexivity].
  - destruct (ok r); cbn.
    + destruct (json r) as [d | e |]; cbn; [| | reflexivity].
      * destruct (truthy (content d)); cbn; [reflexivity |].
        destruct (_ <? _); cbn; [destruct (wait_settles _ _); cbn |];
          try reflexivity;
          destruct (attempts _ _ _ _ _ _); reflexivity.
      * destruct (String.eqb (name e) "AbortError"); cbn; [reflexivity |].
        destruct (_ <? _); cbn; [destruct (wait_settles _ _); cbn |];
          try reflexivity;
          destruct (attempts _ _ _ _ _ _); reflexivity.
    + destruct (text r) as [s | e |]; cbn; [| | reflexivity].
      * destruct (_ <? _); cbn; [destruct (wait_settles _ _); cbn |];
          try reflexivity;
          destruct (attempts _ _ _ _ _ _); reflexivity.
      * destruct (String.eqb (name e) "AbortError"); cbn; [reflexivity |].
        destruct (_ <? _); cbn; [destruct (wait_settles _ _); cbn |];
          try reflexivity;
          destruct (attempts _ _ _ _ _ _); reflexivity.
  - destruct (String.eqb (name e) "AbortError"); cbn; [reflexivity |].
    destruct (_ <? _); cbn; [destruct (wait_settles _ _); cbn |];
      try reflexivity;
      destruct (attempts _ _ _ _ _ _); reflexivity.
Qed.

(** The six ways one iteration can go, with the equations that select them. *)
Ltac iteration_cases :=
  rewrite attempts_S in *;
  let O := fresh "Houtcome" in
  let A := fresh "Habort" in
  let L := fresh "Hmore" in
  let W := fresh "Hsettles" in
  destruct (attempt_outcome (respond env _)) as [[?d | ?e] |] eqn:O;
  [ | destruct (is_abort _) eqn:A;
      [ | destruct (Z.of_nat _ <? _) eqn:L;
          [ destruct (wait_settles env _) eqn:W | ] ] | ].

Lemma invocations_opening a :
  transport_invocations (opening self config a) = 1%nat.
Proof. reflexivity. Qed.

Lemma invocations_succeeded a d :
  transport_invocations (succeeded self config a d) = 1%nat.
Proof. reflexivity. Qed.

Lemma invocations_failed a e :
  transport_invocations (failed self config a e) = 1%nat.
Proof. reflexivity. Qed.

Lemma invocations_retrying a e :
  transport_invocations (retrying self config a e) = 1%nat.
Proof. reflexivity. Qed.

(** Every iteration starts by announcing the attempt and calling the
    transport. *)
Lemma attempts_S_opening left a last :
  exists rest,
    trace (attempts env self config (S left) a last)
    = opening self config a ++ rest.
Proof.
  iteration_cases; unfold retrying, failed, succeeded;
    rewrite ?trace_prepend; cbn [trace fst]; rewrite <- ?app_assoc;
    eexists; reflexivity.
Qed.

(** All requests of a call are the request of lines 46-60. *)
Lemma requests_of_attempts left :
  forall a last r,
    In r (requests (trace (attempts env self config left a last))) ->
    r = request self config.
Proof.
  induction left as [| left IH]; intros a last r Hin.
  - contradiction.
  - iteration_cases;
      rewrite ?trace_prepend, ?requests_app in Hin;
      try apply in_app_or in Hin;
      cbn in Hin; intuition eauto.
Qed.

End Iteration.


(** A call whose first attempt ends in an error other than [AbortError],
    with attempts left and a backoff wait that never settles, makes that one
    transport invocation and never completes. *)
Lemma call_pending_when_wait_never_settles env self config e :
  2 <= this_maxRetries self ->
  attempt_outcome (respond env 0) = Some (inr e) ->
  is_abort e = false ->
  wait_settles env (backoffDelay 0) = false ->
  call env self config = (retrying self config 0 e, Pending).
Proof.
  intros Hn He Ha Hw. unfold call.
  replace (Z.to_nat (this_maxRetries self))
    with (S (Z.to_nat (this_maxRetries self - 1))) by lia.
  rewrite attempts_S, He, Ha, Hw.
  replace (Z.of_nat 0 <? this_maxRetries self - 1) with true
    by (symmetry; apply Z.ltb_lt; lia).
  reflexivity.
Qed.

(** A call whose first attempt is never answered announces it, invokes the
    transport and never completes: nothing cuts the attempt. *)
Lemma call_pending_when_unanswered env self config :
  1 <= this_maxRetries self ->
  attempt_outcome (respond env 0) = None ->
  call env self config = (opening self config 0, Pending).
Proof.
  intros Hn Ho. unfold call.
  replace (Z.to_nat (this_maxRetries self))
    with (S (Z.to_nat (this_maxRetries self - 1))) by lia.
  now rewrite attempts_S, Ho.
Qed.

(** With the timers of the source a call never makes a second attempt. *)
Lemma promise_timers_single_attempt env self config :
  promise_timers env ->
  (transport_invocations (trace (call env self config)) <= 1)%nat.
Proof.
  intro Hpt. unfold call.
  destruct (Z.to_nat (this_maxRetries self)) as [| left] eqn:Hleft;
    [cbn; lia |].
  rewrite attempts_S.
  destruct (attempt_outcome (respond env 0)) as [[d | e] |];
    [reflexivity | | reflexivity].
  destruct (is_abort e); [reflexivity |].
  destruct (Z.of_nat 0 <? this_maxRetries self - 1) eqn:Hm.
  - rewrite Hpt. reflexivity.
  - apply Z.ltb_ge in Hm. replace left with 0%nat by lia. reflexivity.
Qed.

(** ** Labels of the specification against the code's single test *)

Lemma classify_timeout e :
  spec_classify e = Some Timeout <-> is_abort e = true.
Proof.
  unfold spec_classify. destruct (is_abort e); split; intro H;
    try reflexivity; try discriminate.
  destruct (message e) as [s t | | | |]; try discriminate.
  destruct (s =? 429); [discriminate |].
  destruct ((500 <=? s) && (s <=? 599)); [discriminate |].
  destruct ((400 <=? s) && (s <=? 499)); discriminate.
Qed.

Lemma classify_not_timeout e label :
  spec_classify e = Some label -> label <> Timeout -> is_abort e = false.
Proof.
  intros H Hl. destruct (is_abort e) eqn:Ha; [| reflexivity].
  apply classify_timeout in Ha. congruence.
Qed.

Lemma classify_server_error e :
  spec_classify e = Some ServerError ->
  is_abort e = false
  /\ exists s t, message e = MsgApiError s t /\ 500 <= s <= 599.
Proof.
  intro H. split; [eapply classify_not_timeout; eauto; discriminate |].
  unfold spec_classify in H. destruct (is_abort e); [discriminate |].
  destruct (message e) as [s t | | | |]; try discriminate.
  destruct (s =? 429); [discriminate |].
  destruct ((500 <=? s) && (s <=? 599)) eqn:Hs.
  - exists s, t. split; [reflexivity | lia].
  - destruct ((400 <=? s) && (s <=? 499)); discriminate.
Qed.

Lemma failure_label_outcome o label :
  failure_label o = Some label ->
  exists e, attempt_outcome o = Some (inr e) /\ spec_classify e = Some label.
Proof.
  unfold failure_label.
  destruct (attempt_outcome o) as [[d | e] |]; try discriminate.
  intro H. now exists e.
Qed.

(** ** The console does not depend on the credential *)

Lemma console_of_attempts env self self' config config' :
  this_model self = this_model self' ->
  this_maxRetries self = this_maxRetries self' ->
  forall left a last last',
    console (trace (attempts env self config left a last))
    = console (trace (attempts env self' config' left a last')).
Proof.
  intros Hmodel Hmax left.
  induction left as [| left IH]; intros a last last'; [reflexivity |].
  rewrite !attempts_S, <- Hmax.
  destruct (attempt_outcome (respond env a)) as [[d | e] |];
    [ | | unfold opening; cbn; now rewrite Hmax].
  - unfold succeeded, opening. cbn. now rewrite Hmodel, Hmax.
  - destruct (is_abort e).
    + unfold failed, opening. cbn. now rewrite Hmax.
    + destruct (Z.of_nat a <? this_maxRetries self - 1);
        [destruct (wait_settles env (backoffDelay a)) |];
        rewrite ?trace_prepend, ?console_app;
        rewrite ?(IH (S a) (Some e) (Some e));
        unfold retrying, failed, opening; cbn; now rewrite Hmax.
Qed.

(** * The claims *)

(** C10.  For every adapter configured with [maxRetries <= 0], [call]
    performs no transport invocation (indeed no effect at all) and throws
    the failed-after-N-attempts error of line 105 directly, with [lastError]
    still [null]: the message carries no underlying cause. *)
Theorem call_without_attempts env self config :
  this_maxRetries self <= 0 ->
  trace (call env self config) = []
  /\ transport_invocations (trace (call env self config)) = 0%nat
  /\ completion (call env self config)
     = Throw (new_Error (MsgFailedAfter (this_maxRetries self) None)).
Proof.
  intro Hn. unfold call.
  replace (Z.to_nat (this_maxRetries self)) with 0%nat by lia.
  rewrite attempts_O. repeat split.
Qed.

Lemma call_without_attempts_witness :
  transport_invocations
    (trace (call (env_always (http_success (JsString "pong")) true)
                 (sample_provider 0) sample_config)) = 0%nat
  /\ completion (call (env_always (http_success (JsString "pong")) true)
                      (sample_provider (-2)) sample_config)
     = Throw (new_Error (MsgFailedAfter (-2) None)).
Proof.
  split.
  - apply (call_without_attempts
             (env_always (http_success (JsString "pong")) true)
             (sample_provider 0) sample_config).
    simpl. lia.
  - apply (call_without_attempts
             (env_always (http_success (JsString "pong")) true)
             (sample_provider (-2)) sample_config).
    simpl. lia.
Defined.

(** C9.  Every request the call hands to the transport carries
    [temperature = 0.2] when the caller omits the temperature and
    [max_tokens = 1024] when the caller omits [maxTokens]; a value the caller
    supplies is forwarded unchanged. *)
Theorem call_forwards_sampling_parameters env self config r :
  In r (requests (trace (call env self config))) ->
  body_temperature (body r)
  = match temperature config with Some t => t | None => 0.2%Q end
  /\ body_max_tokens (body r)
     = match maxTokens config with Some n => n | None => 1024 end.
Proof.
  intro Hin. apply requests_of_attempts in Hin. subst r. split; reflexivity.
Qed.

Lemma call_forwards_sampling_parameters_witness :
  (body_temperature (body (request (sample_provider 3) sample_config)) = 0.2%Q
   /\ body_max_tokens (body (request (sample_provider 3) sample_config)) = 1024)
  /\ (body_temperature (body (request (sample_provider 3) invalid_config)) = 5%Q
      /\ body_max_tokens (body (request (sample_provider 3) invalid_config)) = -1).
Proof.
  split.
  - apply (call_forwards_sampling_parameters
             (env_always (http_error 500 "boom") true)
             (sample_provider 3) sample_config).
    vm_compute. left. reflexivity.
  - apply (call_forwards_sampling_parameters
             (env_always (http_error 500 "boom") true)
             (sample_provider 3) invalid_config).
    vm_compute. left. reflexivity.
Defined.

(** C8.  Two executions of [call] against the same transport answers that
    agree on the model and on [maxRetries] write the same lines to the
    console, whatever the credentials (of the adapter and of the request) and
    whatever the prompts: neither the credential nor the prompt reaches the
    console. *)
Theorem console_ignores_credential_and_prompt env self self' config config' :
  this_model self = this_model self' ->
  this_maxRetries self = this_maxRetries self' ->
  console (trace (call env self config))
  = console (trace (call env self' config')).
Proof.
  intros Hmodel Hmax. unfold call. rewrite <- Hmax.
  now apply console_of_attempts.
Qed.

Lemma console_ignores_credential_and_prompt_witness :
  console (trace (call (env_success_at 1 (http_error 503 "busy") true)
                       (sample_provider 3) sample_config))
  = console (trace (call (env_success_at 1 (http_error 503 "busy") true)
                         {| this_apiKey := Some "sk-other";
                            this_model := "deepseek-r1";
                            this_timeoutMs := 20000;
                            this_maxRetries := 3 |}
                         {| prompt := "another prompt"; model := "deepseek-r1";
                            apiKey := "sk-other"; timeoutMs := None;
                            temperature := None; maxTokens := None |})).
Proof.
  apply console_ignores_credential_and_prompt; reflexivity.
Defined.

(** C3, on the code.  With the timers of the source, [maxRetries = 3] and
    every attempt answered by a ServerError (status 500-599), the call
    invokes the transport once, writes the failure line of attempt 1, starts
    the 1000 ms wait and never completes: attempts 2 and 3 are not made and
    the failed-after-3-attempts error of line 105 is not thrown. *)
Theorem server_errors_stall_after_one_attempt env self config :
  promise_timers env ->
  this_maxRetries self = 3 ->
  (forall i, failure_label (respond env i) = Some ServerError) ->
  transport_invocations (trace (call env self config)) = 1%nat
  /\ map fst (failure_records (trace (call env self config))) = [1]
  /\ backoffs (trace (call env self config)) = [1000]
  /\ completion (call env self config) = Pending.
Proof.
  intros Hpt Hn Hlabel.
  destruct (failure_label_outcome _ _ (Hlabel 0%nat)) as (e & He & Hc).
  destruct (classify_server_error _ Hc) as [Ha _].
  rewrite (call_pending_when_wait_never_settles env self config e);
    try assumption; [| lia | apply Hpt].
  repeat split.
Qed.

Lemma server_errors_stall_after_one_attempt_witness :
  transport_invocations
    (trace (call (env_always (http_error 500 "boom") false)
                 (sample_provider 3) sample_config)) = 1%nat
  /\ map fst (failure_records
                (trace (call (env_always (http_error 500 "boom") false)
                             (sample_provider 3) sample_config))) = [1]
  /\ backoffs (trace (call (env_always (http_error 500 "boom") false)
                           (sample_provider 3) sample_config)) = [1000]
  /\ completion (call (env_always (http_error 500 "boom") false)
                      (sample_provider 3) sample_config) = Pending.
Proof.
  apply (server_errors_stall_after_one_attempt
           (env_always (http_error 500 "boom") false)
           (sample_provider 3) sample_config).
  - intro d. reflexivity.
  - reflexivity.
  - intro i. reflexivity.
Defined.

(** C4, on the code.  With the timers of the source, a first attempt that
    fails with an error other than [AbortError] while attempts remain is the
    only one: the call never completes, so it returns nothing, whatever the
    transport would answer on later attempts, such as the success on attempt
    2 after two retryable failures. *)
Theorem later_success_is_never_reached env self config e :
  promise_timers env ->
  2 <= this_maxRetries self ->
  attempt_outcome (respond env 0) = Some (inr e) ->
  is_abort e = false ->
  completion (call env self config) = Pending
  /\ transport_invocations (trace (call env self config)) = 1%nat
  /\ forall v, completion (call env self config) <> Normal v.
Proof.
  intros Hpt Hn He Ha.
  rewrite (call_pending_when_wait_never_settles env self config e);
    try assumption; [| apply Hpt].
  repeat split. discriminate.
Qed.

Lemma later_success_is_never_reached_witness :
  attempt_outcome (respond (env_success_at 2 (http_error 503 "busy") false) 2)
  = Some (inl {| content := JsString "pong"; prompt_tokens := Some 3;
                 completion_tokens := Some 4; total_tokens := Some 7 |})
  /\ (completion (call (env_success_at 2 (http_error 503 "busy") false)
                       (sample_provider 3) sample_config) = Pending
      /\ transport_invocations
           (trace (call (env_success_at 2 (http_error 503 "busy") false)
                        (sample_provider 3) sample_config)) = 1%nat
      /\ forall v,
           completion (call (env_success_at 2 (http_error 503 "busy") false)
                            (sample_provider 3) sample_config) <> Normal v).
Proof.
  split; [reflexivity |].
  apply (later_success_is_never_reached
           (env_success_at 2 (http_error 503 "busy") false)
           (sample_provider 3) sample_config
           (new_Error (MsgApiError 503 "busy"))).
  - intro d. reflexivity.
  - simpl. lia.
  - reflexivity.
  - reflexivity.
Defined.

(** C1, as stated, fails: a 404, and likewise a 200 without content, on
    every attempt with [maxRetries = 3] is followed by two more transport
    invocations when the backoff waits settle, and by a call that never
    completes when they do not; in neither case does the call throw after
    exactly one attempt. *)
Lemma non_retryable_failure_counterexample :
  failure_label (http_error 404 "not found") = Some ClientError
  /\ transport_invocations
       (trace (call (env_always (http_error 404 "not found") true)
                    (sample_provider 3) sample_config)) = 3%nat
  /\ completion (call (env_always (http_error 404 "not found") false)
                      (sample_provider 3) sample_config) = Pending
  /\ failure_label (http_success JsUndefined) = Some Malformed
  /\ transport_invocations
       (trace (call (env_always (http_success JsUndefined) true)
                    (sample_provider 3) sample_config)) = 3%nat.
Proof. repeat split. Qed.

(** C1 (amended).  A first attempt that fails with ClientError (a 4xx status
    other than 429) or Malformed (successful status, content missing) ends
    the call after exactly 1 attempt only when [maxRetries = 1], with the
    failed-after-1-attempts error of line 105.  With [maxRetries >= 2] the
    failure is handled like any error other than [AbortError]: the adapter
    logs it, announces and starts the 1000 ms backoff and, once that wait
    settles, invokes the transport again. *)
Theorem non_retryable_first_failure env self config label :
  failure_label (respond env 0) = Some label ->
  label = ClientError \/ label = Malformed ->
  exists e,
    attempt_outcome (respond env 0) = Some (inr e)
    /\ (this_maxRetries self = 1 ->
        call env self config
        = (failed self config 0 e,
           Throw (new_Error (MsgFailedAfter 1 (Some (message e))))))
    /\ (2 <= this_maxRetries self ->
        exists rest,
          trace (call env self config) = retrying self config 0 e ++ rest
          /\ (wait_settles env (backoffDelay 0) = true ->
              (2 <= transport_invocations (trace (call env self config)))%nat)).
Proof.
  intros Hlabel Hcase.
  destruct (failure_label_outcome _ _ Hlabel) as (e & He & Hc).
  assert (Ha : is_abort e = false).
  { eapply classify_not_timeout; [exact Hc |]. destruct Hcase; subst; discriminate. }
  exists e. split; [exact He |]. split.
  - intro Hn. unfold call. rewrite Hn. change (Z.to_nat 1) with 1%nat.
    rewrite attempts_S, He, Ha, Hn. cbn [Z.of_nat Z.sub Z.ltb Z.compare].
    change (0 <? 1 - 1) with false. cbv iota.
    rewrite attempts_O, Hn. unfold prepend. cbn [trace completion fst snd].
    now rewrite app_nil_r.
  - intro Hn. unfold call.
    replace (Z.to_nat (this_maxRetries self))
      with (S (S (Z.to_nat (this_maxRetries self - 2)))) by lia.
    rewrite attempts_S, He, Ha.
    replace (Z.of_nat 0 <? this_maxRetries self - 1) with true
      by (symmetry; apply Z.ltb_lt; lia).
    destruct (wait_settles env (backoffDelay 0)).
    + eexists. split; [apply trace_prepend |].
      intros _. rewrite trace_prepend, transport_invocations_app,
        invocations_retrying.
      destruct (attempts_S_opening env self config
                  (Z.to_nat (this_maxRetries self - 2)) 1%nat (Some e))
        as (rest & Hrest).
      rewrite Hrest, transport_invocations_app. cbn. lia.
    + exists []. split; [now rewrite app_nil_r | discriminate].
Qed.

Lemma non_retryable_first_failure_witness :
  exists e,
    attempt_outcome (respond (env_always (http_error 404 "not found") true) 0)
    = Some (inr e)
    /\ (this_maxRetries (sample_provider 2) = 1 ->
        call (env_always (http_error 404 "not found") true)
             (sample_provider 2) sample_config
        = (failed (sample_provider 2) sample_config 0 e,
           Throw (new_Error (MsgFailedAfter 1 (Some (message e))))))
    /\ (2 <= this_maxRetries (sample_provider 2) ->
        exists rest,
          trace (call (env_always (http_error 404 "not found") true)
                      (sample_provider 2) sample_config)
          = retrying (sample_provider 2) sample_config 0 e ++ rest
          /\ (wait_settles (env_always (http_error 404 "not found") true)
                (backoffDelay 0) = true ->
              (2 <= transport_invocations
                      (trace (call (env_always (http_error 404 "not found") true)
                                   (sample_provider 2) sample_config)))%nat)).
Proof.
  apply (non_retryable_first_failure
           (env_always (http_error 404 "not found") true)
           (sample_provider 2) sample_config ClientError).
  - reflexivity.
  - left. reflexivity.
Defined.

(** C2, on the code.  Nothing cuts an attempt: when the transport does not
    answer the first attempt, a call with [maxRetries >= 1] announces the
    attempt, invokes the transport once and never completes.  It writes no
    failure line, starts no backoff and makes no further attempt, and the
    timeout error of line 93 is not thrown. *)
Theorem unanswered_attempt_is_never_cut env self config :
  1 <= this_maxRetries self ->
  respond env 0 = Unsettled ->
  call env self config = (opening self config 0, Pending)
  /\ transport_invocations (trace (call env self config)) = 1%nat
  /\ failure_records (trace (call env self config)) = []
  /\ backoffs (trace (call env self config)) = [].
Proof.
  intros Hn Ho.
  rewrite (call_pending_when_unanswered env self config Hn);
    [| now rewrite Ho].
  repeat split.
Qed.

Lemma unanswered_attempt_is_never_cut_witness :
  call (env_always Unsettled true) (sample_provider 3) sample_config
  = (opening (sample_provider 3) sample_config 0, Pending)
  /\ transport_invocations
       (trace (call (env_always Unsettled true)
                    (sample_provider 3) sample_config)) = 1%nat
  /\ failure_records
       (trace (call (env_always Unsettled true)
                    (sample_provider 3) sample_config)) = []
  /\ backoffs (trace (call (env_always Unsettled true)
                           (sample_provider 3) sample_config)) = [].
Proof.
  apply (unanswered_attempt_is_never_cut
           (env_always Unsettled true) (sample_provider 3) sample_config).
  - simpl. lia.
  - reflexivity.
Defined.

(** C5, on the code.  With the timers of the source, after a first attempt
    that fails with an error other than [AbortError] while attempts remain,
    the call announces and starts the wait of 1000 ms and that wait is the
    last thing it does: it never ends, so no wait of 2000 or 4000 ms follows
    and no next attempt is made. *)
Theorem first_backoff_never_ends env self config e :
  promise_timers env ->
  2 <= this_maxRetries self ->
  attempt_outcome (respond env 0) = Some (inr e) ->
  is_abort e = false ->
  backoffs (trace (call env self config)) = [1000]
  /\ (exists before,
         trace (call env self config)
         = before ++ [Console (LogRetrying 1000); Backoff 1000])
  /\ completion (call env self config) = Pending.
Proof.
  intros Hpt Hn He Ha.
  rewrite (call_pending_when_wait_never_settles env self config e);
    try assumption; [| apply Hpt].
  repeat split. exists (failed self config 0 e). reflexivity.
Qed.

Lemma first_backoff_never_ends_witness :
  backoffs (trace (call (env_always (http_error 500 "boom") false)
                        (sample_provider 4) sample_config)) = [1000]
  /\ (exists before,
         trace (call (env_always (http_error 500 "boom") false)
                     (sample_provider 4) sample_config)
         = before ++ [Console (LogRetrying 1000); Backoff 1000])
  /\ completion (call (env_always (http_error 500 "boom") false)
                      (sample_provider 4) sample_config) = Pending.
Proof.
  apply (first_backoff_never_ends
           (env_always (http_error 500 "boom") false)
           (sample_provider 4) sample_config
           (new_Error (MsgApiError 500 "boom"))).
  - intro d. reflexivity.
  - simpl. lia.
  - reflexivity.
  - reflexivity.
Defined.

(** C6, as stated, fails: a request with an empty prompt, temperature 5 and
    [maxTokens = -1] is sent to the transport and, when the transport
    answers with content, the call returns that content after one
    invocation. *)
Lemma invalid_request_counterexample :
  spec_invalid_request invalid_config = true
  /\ completion (call (env_always (http_success (JsString "pong")) true)
                      (sample_provider 3) invalid_config)
     = Normal (JsString "pong")
  /\ transport_invocations
       (trace (call (env_always (http_success (JsString "pong")) true)
                    (sample_provider 3) invalid_config)) = 1%nat.
Proof. repeat split. Qed.

(** C6 (amended).  The adapter does not validate the request.  For a
    request whose prompt is empty, whose temperature is outside 0.0-2.0 or
    whose [maxTokens] is not positive, as for any other, a call with
    [maxRetries >= 1] announces attempt 1 and invokes the transport with the
    prompt, temperature and [maxTokens] as given; there is no InvalidRequest
    error, and the transport is left alone only when [maxRetries <= 0]. *)
Theorem invalid_request_is_forwarded env self config :
  spec_invalid_request config = true ->
  1 <= this_maxRetries self ->
  exists r rest,
    trace (call env self config)
    = Console (LogAttempt 1 (this_maxRetries self)) :: Fetch r :: rest
    /\ body_user_content (body r) = prompt config
    /\ body_temperature (body r)
       = match temperature config with Some t => t | None => 0.2%Q end
    /\ body_max_tokens (body r)
       = match maxTokens config with Some n => n | None => 1024 end.
Proof.
  intros _ Hn. unfold call.
  replace (Z.to_nat (this_maxRetries self))
    with (S (Z.to_nat (this_maxRetries self - 1))) by lia.
  destruct (attempts_S_opening env self config
              (Z.to_nat (this_maxRetries self - 1)) 0%nat None) as (rest & Hrest).
  exists (request self config), rest. rewrite Hrest. repeat split.
Qed.

Lemma invalid_request_is_forwarded_witness :
  exists r rest,
    trace (call (env_always (http_success (JsString "pong")) true)
                (sample_provider 3) invalid_config)
    = Console (LogAttempt 1 (this_maxRetries (sample_provider 3)))
      :: Fetch r :: rest
    /\ body_user_content (body r) = prompt invalid_config
    /\ body_temperature (body r)
       = match temperature invalid_config with Some t => t | None => 0.2%Q end
    /\ body_max_tokens (body r)
       = match maxTokens invalid_config with Some n => n | None => 1024 end.
Proof.
  apply (invalid_request_is_forwarded
           (env_always (http_success (JsString "pong")) true)
           (sample_provider 3) invalid_config).
  - reflexivity.
  - simpl. lia.
Defined.

(** C7, on the code: two successive calls of [createSolaraProvider] return
    two distinct objects, and each call reads the credential from the
    environment again. *)
Theorem createSolaraProvider_builds_anew parseInt p :
  fst (createSolaraProvider parseInt p)
  <> fst (createSolaraProvider parseInt (snd (createSolaraProvider parseInt p)))
  /\ reads_of "SOLARA_API_KEY"
       (snd (createSolaraProvider parseInt
               (snd (createSolaraProvider parseInt p))))
     = (reads_of "SOLARA_API_KEY" p + 2)%nat
  /\ List.length
       (heap (snd (createSolaraProvider parseInt
                     (snd (createSolaraProvider parseInt p)))))
     = (List.length (heap p) + 2)%nat.
Proof.
  unfold createSolaraProvider, read_env, new_SolaraProvider, reads_of.
  cbn [fst snd heap env_reads environ].
  repeat split.
  - rewrite length_app. cbn. lia.
  - rewrite <- !app_assoc. rewrite !filter_app, !length_app. cbn. lia.
  - rewrite !length_app. cbn. lia.
Qed.

(** * Further properties of [call] *)

(** ** The shape of a run *)

Section RunShape.

Variable env : Env.
Variable self : SolaraProvider.
Variable config : SolaraConfig.

(** While the loop header allows another iteration, the rest of the run is
    a series of retried failures followed by an ending. *)
Lemma attempts_shape left :
  forall a last,
    left = Z.to_nat (this_maxRetries self - Z.of_nat a) ->
    Z.of_nat a < this_maxRetries self ->
    exists errs x,
      retried_ok env self a errs
      /\ ends env self (a + List.length errs) x
      /\ Z.of_nat (a + List.length errs) < this_maxRetries self
      /\ attempts env self config left a last
         = (retried self config a errs
              ++ ending_events self config (a + List.length errs) x,
            ending_completion self x).
Proof.
  induction left as [| left IH]; intros a last Hleft Hlt; [lia |].
  rewrite attempts_S.
  destruct (attempt_outcome (respond env a)) as [[d | e] |] eqn:Ho;
    [ | | exists [], Unanswered; cbn [List.length retried retried_ok app];
          rewrite Nat.add_0_r; repeat split; assumption ].
  - exists [], (Succeeded d). cbn [List.length retried retried_ok app].
    rewrite Nat.add_0_r. repeat split; assumption.
  - destruct (is_abort e) eqn:Ha.
    + exists [], (TimedOut e). cbn [List.length retried retried_ok app].
      rewrite Nat.add_0_r. repeat split; assumption.
    + destruct (Z.of_nat a <? this_maxRetries self - 1) eqn:Hm.
      * apply Z.ltb_lt in Hm.
        destruct (wait_settles env (backoffDelay a)) eqn:Hw.
        -- destruct (IH (S a) (Some e)) as (errs & x & Hok & Hx & Hn & Hrun);
             [lia | lia |].
           exists (e :: errs), x. cbn [List.length retried retried_ok].
           rewrite Nat.add_succ_r. repeat split; try assumption.
           rewrite Hrun. unfold prepend. cbn [trace completion fst snd].
           now rewrite app_assoc.
        -- exists [], (Stuck e). cbn [List.length retried retried_ok app].
           rewrite Nat.add_0_r. repeat split; assumption.
      * apply Z.ltb_ge in Hm.
        exists [], (Exhausted e). cbn [List.length retried retried_ok app].
        rewrite Nat.add_0_r.
        replace left with 0%nat by lia. rewrite attempts_O.
        repeat split; try assumption; lia.
Qed.

(** Conversely, a series of retried failures followed by an ending is the
    run. *)
Lemma attempts_of_shape errs :
  forall a left last x,
    left = Z.to_nat (this_maxRetries self - Z.of_nat a) ->
    retried_ok env self a errs ->
    ends env self (a + List.length errs) x ->
    Z.of_nat (a + List.length errs) < this_maxRetries self ->
    attempts env self config left a last
    = (retried self config a errs
         ++ ending_events self config (a + List.length errs) x,
       ending_completion self x).
Proof.
  induction errs as [| e errs IH]; intros a left last x Hleft Hok Hx Hlt;
    cbn [List.length retried retried_ok app] in *.
  - rewrite Nat.add_0_r in *.
    destruct left as [| left]; [lia |]. rewrite attempts_S.
    destruct x as [d | e | e | e |];
      cbn [ends ending_events ending_completion] in *;
      [ | | | | now rewrite Hx ].
    + now rewrite Hx.
    + destruct Hx as [Ho Ha]. now rewrite Ho, Ha.
    + destruct Hx as (Ho & Ha & Hk). rewrite Ho, Ha.
      replace (Z.of_nat a <? this_maxRetries self - 1) with false
        by (symmetry; apply Z.ltb_ge; lia).
      replace left with 0%nat by lia. rewrite attempts_O.
      reflexivity.
    + destruct Hx as (Ho & Ha & Hk & Hw). rewrite Ho, Ha, Hw.
      replace (Z.of_nat a <? this_maxRetries self - 1) with true
        by (symmetry; apply Z.ltb_lt; lia).
      reflexivity.
  - destruct Hok as (Ho & Ha & Hk & Hw & Hok).
    destruct left as [| left]; [lia |].
    rewrite attempts_S, Ho, Ha, Hw.
    replace (Z.of_nat a <? this_maxRetries self - 1) with true
      by (symmetry; apply Z.ltb_lt; lia).
    rewrite Nat.add_succ_r in *.
    rewrite (IH (S a) left (Some e) x); try assumption; try lia.
    unfold prepend. cbn [trace completion fst snd]. now rewrite app_assoc.
Qed.

End RunShape.

(** ** What the parts of a run leave in the trace *)

Lemma attempt_lines_app t1 t2 :
  attempt_lines (t1 ++ t2) = attempt_lines t1 ++ attempt_lines t2.
Proof. apply flat_map_app. Qed.

Lemma success_lines_app t1 t2 :
  success_lines (t1 ++ t2) = success_lines t1 ++ success_lines t2.
Proof. apply flat_map_app. Qed.

Lemma retry_lines_app t1 t2 :
  retry_lines (t1 ++ t2) = retry_lines t1 ++ retry_lines t2.
Proof. apply flat_map_app. Qed.

Section RunFacts.

Variable self : SolaraProvider.
Variable config : SolaraConfig.

Lemma invocations_retried errs :
  forall a, transport_invocations (retried self config a errs) = List.length errs.
Proof.
  induction errs as [| e errs IH]; intro a; [reflexivity |].
  cbn [retried List.length].
  now rewrite transport_invocations_app, invocations_retrying, IH.
Qed.

Lemma invocations_ending k x :
  transport_invocations (ending_events self config k x) = 1%nat.
Proof. destruct x; reflexivity. Qed.

Lemma backoffs_retried errs :
  forall a,
    backoffs (retried self config a errs)
    = map backoffDelay (seq a (List.length errs)).
Proof.
  induction errs as [| e errs IH]; intro a; [reflexivity |].
  cbn [retried List.length seq map]. rewrite backoffs_app, IH. reflexivity.
Qed.

Lemma backoffs_ending k x :
  backoffs (ending_events self config k x)
  = match x with Stuck _ => [backoffDelay k] | _ => [] end.
Proof. destruct x; reflexivity. Qed.

Lemma retry_lines_retried errs :
  forall a,
    retry_lines (retried self config a errs)
    = map backoffDelay (seq a (List.length errs)).
Proof.
  induction errs as [| e errs IH]; intro a; [reflexivity |].
  cbn [retried List.length seq map]. rewrite retry_lines_app, IH. reflexivity.
Qed.

Lemma retry_lines_ending k x :
  retry_lines (ending_events self config k x)
  = match x with Stuck _ => [backoffDelay k] | _ => [] end.
Proof. destruct x; reflexivity. Qed.

Lemma attempt_lines_retried errs :
  forall a,
    attempt_lines (retried self config a errs)
    = map (fun i => (Z.of_nat i + 1, this_maxRetries self))
        (seq a (List.length errs)).
Proof.
  induction errs as [| e errs IH]; intro a; [reflexivity |].
  cbn [retried List.length seq map]. rewrite attempt_lines_app, IH. reflexivity.
Qed.

Lemma attempt_lines_ending k x :
  attempt_lines (ending_events self config k x)
  = [(Z.of_nat k + 1, this_maxRetries self)].
Proof. destruct x; reflexivity. Qed.

Lemma failure_records_retried errs :
  forall a,
    failure_records (retried self config a errs)
    = combine (map (fun i => Z.of_nat i + 1) (seq a (List.length errs)))
        (map message errs).
Proof.
  induction errs as [| e errs IH]; intro a; [reflexivity |].
  cbn [retried List.length seq map combine].
  rewrite failure_records_app, IH. reflexivity.
Qed.

Lemma failure_records_ending k x :
  failure_records (ending_events self config k x)
  = match x with
    | Succeeded _ | Unanswered => []
    | TimedOut e | Exhausted e | Stuck e => [(Z.of_nat k + 1, message e)]
    end.
Proof. destruct x; reflexivity. Qed.

Lemma success_lines_retried errs :
  forall a, success_lines (retried self config a errs) = [].
Proof.
  induction errs as [| e errs IH]; intro a; [reflexivity |].
  cbn [retried]. rewrite success_lines_app, IH. reflexivity.
Qed.

Lemma success_lines_ending k x :
  success_lines (ending_events self config k x)
  = match x with Succeeded _ => [this_model self] | _ => [] end.
Proof. destruct x; reflexivity. Qed.

End RunFacts.

(** The total of the waits that follow attempts [a], ..., [a + n - 1]. *)
Lemma total_backoffDelay n :
  forall a,
    total (map backoffDelay (seq a n))
    = 1000 * 2 ^ Z.of_nat a * (2 ^ Z.of_nat n - 1).
Proof.
  induction n as [| n IH]; intro a.
  - cbn. ring.
  - cbn [seq map total fold_right]. fold (total (map backoffDelay (seq (S a) n))).
    rewrite IH. unfold backoffDelay.
    rewrite !Nat2Z.inj_succ, !Z.pow_succ_r by lia. ring.
Qed.

(** A successful attempt is a 2xx response whose body parses and whose
    content is truthy. *)
Lemma outcome_success o d :
  attempt_outcome o = Some (inl d) ->
  exists r, o = Resolves r /\ ok r = true /\ json r = Resolves d
            /\ truthy (content d) = true.
Proof.
  unfold attempt_outcome. destruct o as [r | e |]; try discriminate.
  destruct (ok r) eqn:Hok; cbn [negb].
  - destruct (json r) as [d' | e |] eqn:Hj; try discriminate.
    destruct (truthy (content d')) eqn:Ht; cbn [negb]; [| discriminate].
    intro H. injection H as <-. now exists r.
  - destruct (text r); discriminate.
Qed.

Lemma retried_ok_more_attempts env self self' errs :
  this_maxRetries self <= this_maxRetries self' ->
  forall a, retried_ok env self a errs -> retried_ok env self' a errs.
Proof.
  intro Hle. induction errs as [| e errs IH]; intros a Hok; [exact I |].
  cbn [retried_ok] in *. destruct Hok as (Ho & Ha & Hk & Hw & Hok).
  repeat split; try assumption; [lia | now apply IH].
Qed.

Lemma all_equal_repeat {A} (x : A) (l : list A) :
  (forall y, In y l -> y = x) -> l = repeat x (List.length l).
Proof.
  induction l as [| y l IH]; intro H; [reflexivity |].
  cbn [List.length repeat]. rewrite (H y (or_introl eq_refl)).
  f_equal. apply IH. intros z Hz. apply H. now right.
Qed.

(** The request does not read [config.model], [config.apiKey] or
    [config.timeoutMs]. *)
Lemma attempts_same_request env self config config' :
  request self config = request self config' ->
  forall left a last,
    attempts env self config left a last = attempts env self config' left a last.
Proof.
  intros Hreq left. induction left as [| left IH]; intros a last; [reflexivity |].
  rewrite !attempts_S. unfold succeeded, retrying, failed, opening.
  rewrite Hreq.
  destruct (attempt_outcome (respond env a)) as [[d | e] |];
    [reflexivity | | reflexivity].
  destruct (is_abort e); [reflexivity |].
  destruct (Z.of_nat a <? this_maxRetries self - 1);
    [destruct (wait_settles env (backoffDelay a)) |];
    rewrite ?IH; reflexivity.
Qed.

(** ** The run of a whole call *)

Lemma call_no_attempt env self config :
  this_maxRetries self <= 0 ->
  call env self config
  = ([], Throw (new_Error (MsgFailedAfter (this_maxRetries self) None))).
Proof.
  intro Hn. unfold call.
  replace (Z.to_nat (this_maxRetries self)) with 0%nat by lia.
  apply attempts_O.
Qed.

Lemma call_shape env self config :
  1 <= this_maxRetries self ->
  exists errs x,
    retried_ok env self 0 errs
    /\ ends env self (List.length errs) x
    /\ Z.of_nat (List.length errs) < this_maxRetries self
    /\ call env self config
       = (retried self config 0 errs
            ++ ending_events self config (List.length errs) x,
          ending_completion self x).
Proof.
  intro Hn.
  destruct (attempts_shape env self config
              (Z.to_nat (this_maxRetries self)) 0%nat None)
    as (errs & x & H); [cbn; lia | cbn; lia |].
  exists errs, x. exact H.
Qed.

Lemma call_of_shape env self config errs x :
  retried_ok env self 0 errs ->
  ends env self (List.length errs) x ->
  Z.of_nat (List.length errs) < this_maxRetries self ->
  call env self config
  = (retried self config 0 errs
       ++ ending_events self config (List.length errs) x,
     ending_completion self x).
Proof.
  intros Hok Hx Hlt. unfold call.
  apply (attempts_of_shape env self config errs 0%nat); try assumption.
  cbn. f_equal. lia.
Qed.

(** Case analysis on a call: no attempt at all, or a run of the shape
    above, rewritten in the goal. *)
Ltac by_shape env self config :=
  let Hn := fresh "Hn" in
  let errs := fresh "errs" in
  let x := fresh "x" in
  let Hok := fresh "Hok" in
  let Hx := fresh "Hx" in
  let Hlt := fresh "Hlt" in
  let Hrun := fresh "Hrun" in
  destruct (Z_le_gt_dec (this_maxRetries self) 0) as [Hn | Hn];
  [ rewrite (call_no_attempt env self config Hn) in *
  | destruct (call_shape env self config) as (errs & x & Hok & Hx & Hlt & Hrun);
    [lia | rewrite Hrun in *] ];
  cbn [trace completion fst snd] in *.

(** X1.  Every call with [maxRetries >= 1] runs as a series of attempts that
    failed with an error other than [AbortError] and were followed by a
    settled backoff wait, then one last attempt, numbered below [maxRetries],
    at which the call ends or stops: it returns, throws the timeout error,
    throws the failed-after error when that was the attempt numbered
    [maxRetries - 1], waits for ever in the backoff that follows, or waits for
    ever for an answer of the transport. *)
Theorem every_call_is_retries_then_an_ending env self config :
  1 <= this_maxRetries self ->
  exists errs x,
    retried_ok env self 0 errs
    /\ ends env self (List.length errs) x
    /\ Z.of_nat (List.length errs) < this_maxRetries self
    /\ call env self config
       = (retried self config 0 errs
            ++ ending_events self config (List.length errs) x,
          ending_completion self x).
Proof. apply call_shape. Qed.

Lemma every_call_is_retries_then_an_ending_witness :
  exists errs x,
    retried_ok (env_always Unsettled false) (sample_provider 3) 0 errs
    /\ ends (env_always Unsettled false) (sample_provider 3) (List.length errs) x
    /\ Z.of_nat (List.length errs) < this_maxRetries (sample_provider 3)
    /\ call (env_always Unsettled false) (sample_provider 3) sample_config
       = (retried (sample_provider 3) sample_config 0 errs
            ++ ending_events (sample_provider 3) sample_config
                 (List.length errs) x,
          ending_completion (sample_provider 3) x).
Proof.
  apply (every_call_is_retries_then_an_ending
           (env_always Unsettled false) (sample_provider 3) sample_config).
  simpl. lia.
Defined.

(** X2.  Conversely the answers of the transport and of the waits determine
    the run: if the attempts numbered 0, ..., n - 1 end in the errors [errs]
    and are retried, and attempt [n < maxRetries] ends the call as [x], then
    the trace and the completion of the call are those of that series. *)
Theorem retries_then_an_ending_is_the_call env self config errs x :
  retried_ok env self 0 errs ->
  ends env self (List.length errs) x ->
  Z.of_nat (List.length errs) < this_maxRetries self ->
  call env self config
  = (retried self config 0 errs
       ++ ending_events self config (List.length errs) x,
     ending_completion self x).
Proof. apply call_of_shape. Qed.

Lemma retries_then_an_ending_is_the_call_witness :
  call (env_flaky true) (sample_provider 5) sample_config
  = (retried (sample_provider 5) sample_config 0
       [new_Error (MsgApiError 503 "busy"); new_Error (MsgApiError 503 "busy")]
       ++ ending_events (sample_provider 5) sample_config 2
            (TimedOut {| name := "AbortError";
                         message := MsgForeign "The user aborted a request." |}),
     ending_completion (sample_provider 5)
       (TimedOut {| name := "AbortError";
                    message := MsgForeign "The user aborted a request." |})).
Proof.
  apply (retries_then_an_ending_is_the_call
           (env_flaky true) (sample_provider 5) sample_config
           [new_Error (MsgApiError 503 "busy"); new_Error (MsgApiError 503 "busy")]
           (TimedOut {| name := "AbortError";
                        message := MsgForeign "The user aborted a request." |})).
  - simpl. repeat split; lia.
  - simpl. split; reflexivity.
  - simpl. lia.
Defined.

(** X3.  A call never invokes the transport more than [maxRetries] times
    (and not at all when [maxRetries] is not positive). *)
Theorem call_respects_attempt_budget env self config :
  Z.of_nat (transport_invocations (trace (call env self config)))
  <= Z.max 0 (this_maxRetries self).
Proof.
  by_shape env self config.
  - cbn. lia.
  - rewrite transport_invocations_app, invocations_retried, invocations_ending.
    lia.
Qed.

(** X4.  Whatever a call returns is the truthy content of a 2xx response
    whose body parsed, and that response answered the last transport
    invocation of the call: the adapter never returns an empty or missing
    content. *)
Theorem call_returns_content_of_last_response env self config v :
  completion (call env self config) = Normal v ->
  exists k r d,
    respond env k = Resolves r /\ ok r = true /\ json r = Resolves d
    /\ content d = v /\ truthy v = true
    /\ transport_invocations (trace (call env self config)) = S k.
Proof.
  intro H. by_shape env self config; [discriminate |].
  destruct x as [d | e | e | e |]; cbn [ending_completion ends] in *;
    try discriminate.
  injection H as <-.
  destruct (outcome_success _ _ Hx) as (r & Hr & Hok' & Hj & Ht).
  exists (List.length errs), r, d. repeat split; try assumption.
  rewrite transport_invocations_app, invocations_retried, invocations_ending.
  lia.
Qed.

Lemma call_returns_content_of_last_response_witness :
  exists k r d,
    respond (env_success_at 2 (http_error 503 "busy") true) k = Resolves r
    /\ ok r = true /\ json r = Resolves d
    /\ content d = JsString "pong" /\ truthy (JsString "pong") = true
    /\ transport_invocations
         (trace (call (env_success_at 2 (http_error 503 "busy") true)
                      (sample_provider 3) sample_config)) = S k.
Proof.
  apply (call_returns_content_of_last_response
           (env_success_at 2 (http_error 503 "busy") true)
           (sample_provider 3) sample_config).
  reflexivity.
Defined.

(** X5.  A call only ever throws its own two errors, both plain [Error]s:
    the timeout error carrying [timeoutMs], or the failed-after error
    carrying [maxRetries].  The error of the transport is never rethrown as
    such. *)
Theorem call_throws_only_its_own_errors env self config e :
  completion (call env self config) = Throw e ->
  name e = "Error"
  /\ (message e = MsgTimeout (this_timeoutMs self)
      \/ exists last, message e = MsgFailedAfter (this_maxRetries self) last).
Proof.
  intro H. by_shape env self config.
  - injection H as <-. split; [reflexivity |]. right. now eexists.
  - destruct x as [d | e' | e' | e' |]; cbn [ending_completion] in H;
      try discriminate; injection H as <-; (split; [reflexivity |]).
    + now left.
    + right. now eexists.
Qed.

Lemma call_throws_only_its_own_errors_witness :
  name (new_Error (MsgTimeout 20000)) = "Error"
  /\ (message (new_Error (MsgTimeout 20000))
      = MsgTimeout (this_timeoutMs (sample_provider 5))
      \/ exists last,
           message (new_Error (MsgTimeout 20000))
           = MsgFailedAfter (this_maxRetries (sample_provider 5)) last).
Proof.
  apply (call_throws_only_its_own_errors
           (env_flaky true) (sample_provider 5) sample_config).
  reflexivity.
Defined.

(** X6.  A call fails to complete for one of two reasons only, both at its
    last transport invocation: a promise awaited in that attempt (fetch,
    text() or json()) never settles, or the attempt failed with an error
    other than [AbortError] while attempts remained and the backoff wait
    that follows never settles. *)
Theorem pending_call_awaits_an_unsettled_promise env self config :
  completion (call env self config) = Pending ->
  exists k,
    transport_invocations (trace (call env self config)) = S k
    /\ (attempt_outcome (respond env k) = None
        \/ exists e,
             attempt_outcome (respond env k) = Some (inr e)
             /\ is_abort e = false
             /\ Z.of_nat k < this_maxRetries self - 1
             /\ wait_settles env (backoffDelay k) = false).
Proof.
  intro H. by_shape env self config; [discriminate |].
  exists (List.length errs). split.
  - rewrite transport_invocations_app, invocations_retried, invocations_ending.
    lia.
  - destruct x as [d | e | e | e |]; cbn [ending_completion ends] in *;
      try discriminate.
    + right. now exists e.
    + now left.
Qed.

Lemma pending_call_awaits_an_unsettled_promise_witness :
  exists k,
    transport_invocations
      (trace (call (env_always (http_error 500 "boom") false)
                   (sample_provider 3) sample_config)) = S k
    /\ (attempt_outcome
          (respond (env_always (http_error 500 "boom") false) k) = None
        \/ exists e,
             attempt_outcome
               (respond (env_always (http_error 500 "boom") false) k)
             = Some (inr e)
             /\ is_abort e = false
             /\ Z.of_nat k < this_maxRetries (sample_provider 3) - 1
             /\ wait_settles (env_always (http_error 500 "boom") false)
                  (backoffDelay k) = false).
Proof.
  apply (pending_call_awaits_an_unsettled_promise
           (env_always (http_error 500 "boom") false)
           (sample_provider 3) sample_config).
  reflexivity.
Defined.

(** X7.  The waits of a call sit between its transport invocations: a call
    that returns or throws after at least one attempt has started one wait
    fewer than it made invocations, none after the last; a call that never
    completes has either done the same and is left with an attempt that is
    never answered, or has started one wait per invocation and is stuck in
    the last. *)
Theorem one_wait_between_attempts env self config :
  1 <= this_maxRetries self ->
  match completion (call env self config) with
  | Pending =>
      (S (List.length (backoffs (trace (call env self config))))
       = transport_invocations (trace (call env self config))
       /\ attempt_outcome
            (respond env (List.length (backoffs (trace (call env self config)))))
          = None)
      \/ (List.length (backoffs (trace (call env self config)))
          = transport_invocations (trace (call env self config))
          /\ wait_settles env
               (backoffDelay
                  (List.length (backoffs (trace (call env self config))) - 1))
             = false)
  | _ =>
      S (List.length (backoffs (trace (call env self config))))
      = transport_invocations (trace (call env self config))
  end.
Proof.
  intro H1. by_shape env self config; [lia |].
  rewrite backoffs_app, backoffs_retried, backoffs_ending,
    transport_invocations_app, invocations_retried, invocations_ending,
    length_app, length_map, length_seq.
  destruct x as [d | e | e | e |]; cbn [ending_completion ends List.length] in *;
    rewrite ?Nat.add_0_r; try lia.
  - right. split; [lia |].
    replace (List.length errs + 1 - 1)%nat with (List.length errs) by lia.
    apply Hx.
  - left. split; [lia | exact Hx].
Qed.

Lemma one_wait_between_attempts_witness :
  S (List.length
       (backoffs
          (trace (call (env_always (http_success (JsString "pong")) false)
                       (sample_provider 3) sample_config))))
  = transport_invocations
      (trace (call (env_always (http_success (JsString "pong")) false)
                   (sample_provider 3) sample_config)).
Proof.
  apply (one_wait_between_attempts
           (env_always (http_success (JsString "pong")) false)
           (sample_provider 3) sample_config).
  simpl. lia.
Defined.

(** X8.  With [maxRetries >= 1], the waits of a call add up to at most
    1000 * (2^(maxRetries - 1) - 1) milliseconds, and to exactly that much
    when the call ends with the failed-after error. *)
Theorem total_backoff_is_bounded env self config :
  1 <= this_maxRetries self ->
  total (backoffs (trace (call env self config)))
  <= 1000 * (2 ^ (this_maxRetries self - 1) - 1)
  /\ (forall last,
         completion (call env self config)
         = Throw (new_Error (MsgFailedAfter (this_maxRetries self) last)) ->
         total (backoffs (trace (call env self config)))
         = 1000 * (2 ^ (this_maxRetries self - 1) - 1)).
Proof.
  intro H1. by_shape env self config; [lia |].
  rewrite backoffs_app, backoffs_retried, backoffs_ending.
  assert (Hpow : forall n, Z.of_nat n <= this_maxRetries self - 1 ->
                           1000 * 2 ^ Z.of_nat 0 * (2 ^ Z.of_nat n - 1)
                           <= 1000 * (2 ^ (this_maxRetries self - 1) - 1)).
  { intros n Hle.
    assert (2 ^ Z.of_nat n <= 2 ^ (this_maxRetries self - 1))
      by (apply Z.pow_le_mono_r; lia).
    cbn [Z.of_nat]. rewrite Z.pow_0_r. lia. }
  destruct x as [d | e | e | e |]; cbn [ends ending_completion] in *;
    rewrite ?app_nil_r;
    [ | | | | rewrite total_backoffDelay;
              split; [apply Hpow; lia | discriminate] ].
  - rewrite total_backoffDelay. split; [apply Hpow; lia | discriminate].
  - rewrite total_backoffDelay. split; [apply Hpow; lia | discriminate].
  - rewrite total_backoffDelay. destruct Hx as (_ & _ & Hk).
    split; [apply Hpow; lia |]. intros last' _. rewrite Hk.
    cbn [Z.of_nat]. rewrite Z.pow_0_r. ring.
  - destruct Hx as (_ & _ & Hk & _).
    replace (map backoffDelay (seq 0 (List.length errs))
               ++ [backoffDelay (List.length errs)])
      with (map backoffDelay (seq 0 (S (List.length errs))))
      by (rewrite seq_S, map_app; reflexivity).
    rewrite total_backoffDelay. split; [apply Hpow; lia | discriminate].
Qed.

Lemma total_backoff_is_bounded_witness :
  total (backoffs (trace (call (env_always (http_error 500 "boom") true)
                               (sample_provider 3) sample_config)))
  <= 1000 * (2 ^ (this_maxRetries (sample_provider 3) - 1) - 1)
  /\ (forall last,
         completion (call (env_always (http_error 500 "boom") true)
                          (sample_provider 3) sample_config)
         = Throw (new_Error
                    (MsgFailedAfter (this_maxRetries (sample_provider 3)) last)) ->
         total (backoffs (trace (call (env_always (http_error 500 "boom") true)
                                      (sample_provider 3) sample_config)))
         = 1000 * (2 ^ (this_maxRetries (sample_provider 3) - 1) - 1)).
Proof.
  apply (total_backoff_is_bounded
           (env_always (http_error 500 "boom") true)
           (sample_provider 3) sample_config).
  simpl. lia.
Defined.

(** X9.  With [maxRetries >= 1], the failed-after error is thrown only
    after exactly [maxRetries] transport invocations, every one of which
    left a failure line, and its cause is the message of the error, other
    than [AbortError], that ended the attempt numbered [maxRetries - 1]. *)
Theorem exhaustion_reports_last_failure env self config last :
  1 <= this_maxRetries self ->
  completion (call env self config)
  = Throw (new_Error (MsgFailedAfter (this_maxRetries self) last)) ->
  exists e,
    last = Some (message e)
    /\ attempt_outcome (respond env (Z.to_nat (this_maxRetries self - 1)))
       = Some (inr e)
    /\ is_abort e = false
    /\ Z.of_nat (transport_invocations (trace (call env self config)))
       = this_maxRetries self
    /\ List.length (failure_records (trace (call env self config)))
       = transport_invocations (trace (call env self config)).
Proof.
  intros H1 H. by_shape env self config; [lia |].
  destruct x as [d | e | e | e |]; cbn [ends ending_completion] in *;
    try discriminate.
  destruct Hx as (Ho & Ha & Hk). injection H as H. subst last.
  exists e. rewrite <- Hk, Nat2Z.id.
  rewrite transport_invocations_app, invocations_retried, invocations_ending,
    failure_records_app, failure_records_retried, length_app, length_combine,
    !length_map, length_seq, Nat.min_id.
  repeat split; try assumption; cbn; lia.
Qed.

Lemma exhaustion_reports_last_failure_witness :
  exists e,
    Some (MsgApiError 500 "boom") = Some (message e)
    /\ attempt_outcome
         (respond (env_always (http_error 500 "boom") true)
            (Z.to_nat (this_maxRetries (sample_provider 3) - 1)))
       = Some (inr e)
    /\ is_abort e = false
    /\ Z.of_nat (transport_invocations
                   (trace (call (env_always (http_error 500 "boom") true)
                                (sample_provider 3) sample_config)))
       = this_maxRetries (sample_provider 3)
    /\ List.length
         (failure_records
            (trace (call (env_always (http_error 500 "boom") true)
                         (sample_provider 3) sample_config)))
       = transport_invocations
           (trace (call (env_always (http_error 500 "boom") true)
                        (sample_provider 3) sample_config)).
Proof.
  apply (exhaustion_reports_last_failure
           (env_always (http_error 500 "boom") true)
           (sample_provider 3) sample_config).
  - simpl. lia.
  - reflexivity.
Defined.

(** X10.  [call] reads only the prompt, the temperature and [maxTokens] of
    its argument: two requests that agree on these give the same run, whatever
    their [model], [apiKey] and [timeoutMs] fields (the model, credential and
    timeout used are those of the adapter). *)
Theorem call_ignores_model_key_and_timeout_of_config env self config config' :
  prompt config = prompt config' ->
  temperature config = temperature config' ->
  maxTokens config = maxTokens config' ->
  call env self config = call env self config'.
Proof.
  intros Hp Ht Hm. unfold call. apply attempts_same_request.
  unfold request, temperature_or_default, maxTokens_or_default.
  now rewrite Hp, Ht, Hm.
Qed.

Lemma call_ignores_model_key_and_timeout_of_config_witness :
  call (env_flaky true) (sample_provider 5) sample_config
  = call (env_flaky true) (sample_provider 5)
      {| prompt := "hello"; model := "another-model"; apiKey := "sk-other";
         timeoutMs := Some 5; temperature := None; maxTokens := None |}.
Proof.
  apply (call_ignores_model_key_and_timeout_of_config
           (env_flaky true) (sample_provider 5) sample_config);
    reflexivity.
Defined.

(** X11.  Every transport invocation of a call sends the same request:
    a retry resends the first request unchanged. *)
Theorem retries_resend_the_same_request env self config :
  requests (trace (call env self config))
  = repeat (request self config)
      (transport_invocations (trace (call env self config))).
Proof.
  unfold transport_invocations. apply all_equal_repeat.
  intros r Hin. unfold call in Hin.
  now apply requests_of_attempts in Hin.
Qed.

(** X12.  Allowing more attempts never loses a result: if a call returns a
    content with [maxRetries = n], then against the same transport and waits
    a call with any [maxRetries >= n], of any adapter and any request,
    returns the same content after the same number of transport
    invocations. *)
Theorem more_attempts_keep_the_result env self self' config config' v :
  this_maxRetries self <= this_maxRetries self' ->
  completion (call env self config) = Normal v ->
  completion (call env self' config') = Normal v
  /\ transport_invocations (trace (call env self' config'))
     = transport_invocations (trace (call env self config)).
Proof.
  intros Hle H. by_shape env self config; [discriminate |].
  destruct x as [d | e | e | e |]; cbn [ending_completion ends] in *;
    try discriminate.
  rewrite (call_of_shape env self' config' errs (Succeeded d));
    [ | now apply (retried_ok_more_attempts env self self') | exact Hx | lia].
  cbn [trace completion fst snd ending_completion].
  split; [exact H |].
  now rewrite !transport_invocations_app, !invocations_retried,
    !invocations_ending.
Qed.

Lemma more_attempts_keep_the_result_witness :
  completion (call (env_success_at 2 (http_error 503 "busy") true)
                   (sample_provider 7) invalid_config)
  = Normal (JsString "pong")
  /\ transport_invocations
       (trace (call (env_success_at 2 (http_error 503 "busy") true)
                    (sample_provider 7) invalid_config))
     = transport_invocations
         (trace (call (env_success_at 2 (http_error 503 "busy") true)
                      (sample_provider 3) sample_config)).
Proof.
  apply (more_attempts_keep_the_result
           (env_success_at 2 (http_error 503 "busy") true)
           (sample_provider 3) (sample_provider 7) sample_config invalid_config).
  - simpl. lia.
  - reflexivity.
Defined.

(** X16.  The console follows the transport: the attempts are announced as
    1/maxRetries, 2/maxRetries, ... with one announcement per transport
    invocation, and every invocation is followed by exactly one outcome line,
    a failure or a success, except the last one when it is never answered,
    which has none. *)
Theorem one_announcement_and_one_outcome_per_attempt env self config :
  attempt_lines (trace (call env self config))
  = map (fun i => (Z.of_nat i + 1, this_maxRetries self))
      (seq 0 (transport_invocations (trace (call env self config))))
  /\ ((List.length (failure_records (trace (call env self config)))
       + List.length (success_lines (trace (call env self config))))%nat
      = transport_invocations (trace (call env self config))
      \/ (S (List.length (failure_records (trace (call env self config)))
             + List.length (success_lines (trace (call env self config))))
          = transport_invocations (trace (call env self config))
          /\ completion (call env self config) = Pending
          /\ attempt_outcome
               (respond env
                  (transport_invocations (trace (call env self config)) - 1))
             = None)).
Proof.
  by_shape env self config; [split; [reflexivity | now left] |].
  rewrite attempt_lines_app, attempt_lines_retried, attempt_lines_ending,
    failure_records_app, failure_records_retried, failure_records_ending,
    success_lines_app, success_lines_retried, success_lines_ending,
    transport_invocations_app, invocations_retried, invocations_ending,
    !length_app, length_combine, !length_map, length_seq, Nat.min_id.
  split.
  - rewrite Nat.add_1_r, seq_S, map_app. reflexivity.
  - destruct x as [d | e | e | e |];
      cbn [List.length ending_completion ends] in *;
      try (left; lia).
    right. split; [lia |]. split; [reflexivity |].
    replace (List.length errs + 1 - 1)%nat with (List.length errs) by lia.
    exact Hx.
Qed.

(** X17.  The success line is written exactly when the call returns, once,
    and names the model of the adapter. *)
Theorem success_line_iff_returned env self config :
  success_lines (trace (call env self config))
  = match completion (call env self config) with
    | Normal _ => [this_model self]
    | _ => []
    end.
Proof.
  by_shape env self config; [reflexivity |].
  rewrite success_lines_app, success_lines_retried, success_lines_ending.
  destruct x; reflexivity.
Qed.

(** X18.  Every backoff wait is announced on the console with its delay,
    and nothing is announced that is not waited for: the delays of the
    retry lines are those of the waits, in order. *)
Theorem every_wait_is_announced env self config :
  retry_lines (trace (call env self config))
  = backoffs (trace (call env self config)).
Proof.
  by_shape env self config; [reflexivity |].
  now rewrite retry_lines_app, retry_lines_retried, retry_lines_ending,
    backoffs_app, backoffs_retried, backoffs_ending.
Qed.

(** ** [createSolaraProvider] and the constructor *)

Lemma created_provider parseInt p :
  deref (snd (createSolaraProvider parseInt p))
        (fst (createSolaraProvider parseInt p))
  = Some {| this_apiKey := environ p "SOLARA_API_KEY";
            this_model := or_else (environ p "SOLARA_MODEL") "deepseek-r1";
            this_timeoutMs :=
              parseInt (or_else (environ p "SOLARA_TIMEOUT_MS") "20000");
            this_maxRetries :=
              parseInt (or_else (environ p "SOLARA_MAX_RETRIES") "3") |}.
Proof.
  unfold createSolaraProvider, read_env, new_SolaraProvider, deref.
  cbn [fst snd heap environ].
  rewrite nth_error_app2 by lia. now rewrite Nat.sub_diag.
Qed.

(** X13.  The factory does not check the credential: in a process where
    [SOLARA_API_KEY] is unset it still builds an adapter, and every request
    that adapter sends carries the header [Authorization: Bearer undefined]. *)
Theorem missing_key_is_sent_as_undefined parseInt p env config provider r :
  environ p "SOLARA_API_KEY" = None ->
  deref (snd (createSolaraProvider parseInt p))
        (fst (createSolaraProvider parseInt p)) = Some provider ->
  In r (requests (trace (call env provider config))) ->
  authorization r = "Bearer undefined".
Proof.
  intros Hkey Hprov Hin. rewrite created_provider in Hprov.
  injection Hprov as <-. unfold call in Hin.
  apply requests_of_attempts in Hin. subst r.
  cbn [request authorization]. unfold bearer. cbn [this_apiKey].
  now rewrite Hkey.
Qed.

Lemma missing_key_is_sent_as_undefined_witness :
  authorization
    (request {| this_apiKey := None; this_model := "deepseek-r1";
                this_timeoutMs := 20000; this_maxRetries := 2 |}
             sample_config)
  = "Bearer undefined".
Proof.
  apply (missing_key_is_sent_as_undefined
           sample_parseInt keyless_process
           (env_always (http_error 500 "boom") true) sample_config
           {| this_apiKey := None; this_model := "deepseek-r1";
              this_timeoutMs := 20000; this_maxRetries := 2 |}).
  - reflexivity.
  - reflexivity.
  - vm_compute. left. reflexivity.
Defined.

(** X14.  The fallbacks of the factory are the defaults of the constructor:
    given that [parseInt] reads "20000" as 20000 and "3" as 3, a process in
    which [SOLARA_MODEL], [SOLARA_TIMEOUT_MS] and [SOLARA_MAX_RETRIES] are
    unset or empty gets the adapter [new SolaraProvider(key)] would build,
    with model deepseek-r1, 20000 ms and 3 attempts. *)
Theorem factory_fallbacks_are_constructor_defaults parseInt p :
  parseInt "20000" = 20000 ->
  parseInt "3" = 3 ->
  (environ p "SOLARA_MODEL" = None \/ environ p "SOLARA_MODEL" = Some "") ->
  (environ p "SOLARA_TIMEOUT_MS" = None
   \/ environ p "SOLARA_TIMEOUT_MS" = Some "") ->
  (environ p "SOLARA_MAX_RETRIES" = None
   \/ environ p "SOLARA_MAX_RETRIES" = Some "") ->
  deref (snd (createSolaraProvider parseInt p))
        (fst (createSolaraProvider parseInt p))
  = Some (SolaraProvider_constructor (environ p "SOLARA_API_KEY")
            None None None).
Proof.
  intros Ht Hr [Hm | Hm] [Hto | Hto] [Hrt | Hrt];
    rewrite created_provider, Hm, Hto, Hrt; cbn [or_else String.eqb];
    unfold SolaraProvider_constructor; now rewrite Ht, Hr.
Qed.

Lemma factory_fallbacks_are_constructor_defaults_witness :
  deref (snd (createSolaraProvider sample_parseInt sample_process))
        (fst (createSolaraProvider sample_parseInt sample_process))
  = Some (SolaraProvider_constructor
            (environ sample_process "SOLARA_API_KEY") None None None).
Proof.
  apply (factory_fallbacks_are_constructor_defaults
           sample_parseInt sample_process);
    try reflexivity; left; reflexivity.
Defined.

(** X15.  The factory allocates: the reference it returns was not in use
    before and holds an adapter afterwards, every adapter built earlier is
    still what it was, and the environment is only read, its four variables
    in the order key, model, timeout, retries. *)
Theorem factory_allocates_a_fresh_adapter parseInt p :
  deref p (fst (createSolaraProvider parseInt p)) = None
  /\ (exists provider,
         deref (snd (createSolaraProvider parseInt p))
               (fst (createSolaraProvider parseInt p)) = Some provider)
  /\ (forall r provider,
         deref p r = Some provider ->
         deref (snd (createSolaraProvider parseInt p)) r = Some provider)
  /\ environ (snd (createSolaraProvider parseInt p)) = environ p
  /\ env_reads (snd (createSolaraProvider parseInt p))
     = env_reads p ++ ["SOLARA_API_KEY"; "SOLARA_MODEL";
                       "SOLARA_TIMEOUT_MS"; "SOLARA_MAX_RETRIES"].
Proof.
  split; [| split; [| split; [| split]]].
  - unfold createSolaraProvider, read_env, new_SolaraProvider, deref.
    cbn [fst snd heap]. apply nth_error_None. lia.
  - eexists. apply created_provider.
  - intros r provider H.
    unfold createSolaraProvider, read_env, new_SolaraProvider, deref in *.
    cbn [fst snd heap].
    rewrite nth_error_app1; [exact H |].
    apply nth_error_Some. congruence.
  - reflexivity.
  - unfold createSolaraProvider, read_env, new_SolaraProvider.
    cbn [fst snd env_reads]. now rewrite <- !app_assoc.
Qed.
